(** * Shallow embedding of parts of the tailcall GraphQL engine

    Modules follow the Rust source files:
    - [Valid]             : core::valid, the accumulating validation result
    - [QueryComplexity]   : core/jit/rules/query_complexity.rs
    - [Template]          : the Mustache request template (benches/request_template_bench.rs)
    - [Extension]         : core/blueprint/operators/extension.rs
    - [JitExecutor]       : core/jit/graphql_executor.rs, core/jit/exec_const.rs
    - [ReaderContext]     : core/config/reader_context.rs
    - [QueryGenerator]    : core/generator/openapi/query_generator.rs
    - [Hasher]            : tailcall-hasher/src/lib.rs *)

From Stdlib Require Import List String Ascii Bool ZArith Lia.
From Stdlib Require Import Numbers.DecimalString.
Import ListNotations.
Open Scope list_scope.
Open Scope string_scope.
#[local] Set Warnings "-register-all".

(** ** core::valid::Valid<A, E>: success, or a non-empty list of causes *)
Module Valid.

Inductive Valid (A E : Type) : Type :=
| Succeed : A -> Valid A E
| Fail : list E -> Valid A E.
Arguments Succeed {A E} _.
Arguments Fail {A E} _.

Definition succeed {A E} (a : A) : Valid A E := Succeed a.
Definition fail {A E} (e : E) : Valid A E := Fail [e].

Definition from_option {A E} (o : option A) (e : E) : Valid A E :=
  match o with Some a => Succeed a | None => Fail [e] end.

Definition map {A B E} (f : A -> B) (v : Valid A E) : Valid B E :=
  match v with Succeed a => Succeed (f a) | Fail es => Fail es end.

Definition and_then {A B E} (v : Valid A E) (f : A -> Valid B E) : Valid B E :=
  match v with Succeed a => f a | Fail es => Fail es end.

Definition map_to {A B E} (v : Valid A E) (b : B) : Valid B E :=
  map (fun _ => b) v.

Definition is_succeed {A E} (v : Valid A E) : bool :=
  match v with Succeed _ => true | Fail _ => false end.

End Valid.
Import Valid.

(** ** Query complexity rule *)
Module QueryComplexity.

(** A node of [OperationPlan::as_nested()]: a [Field<Nested<_>>] with its
    name and the child fields returned by [iter_only(|_| true)]. *)
Inductive Field : Type :=
| mkField : string -> list Field -> Field.

Definition name (f : Field) : string := match f with mkField n _ => n end.
Definition children (f : Field) : list Field := match f with mkField _ cs => cs end.

(** [OperationPlan]: the top-level nodes, as [plan.as_nested()] yields them. *)
Definition OperationPlan := list Field.

(** [QueryComplexity(usize)] *)
Definition QueryComplexity := nat.

(** [complexity_helper]: start at 1, add each child's complexity. *)
Fixpoint complexity_helper (field : Field) : nat :=
  match field with
  | mkField _ cs =>
      (fix go (fs : list Field) (complexity : nat) : nat :=
         match fs with
         | [] => complexity
         | child :: rest => go rest (complexity + complexity_helper child)
         end) cs 1
  end.

Definition sum (l : list nat) : nat := fold_left Nat.add l 0.

Definition complexity (plan : OperationPlan) : nat :=
  sum (List.map complexity_helper plan).

(** [Rule::validate] *)
Definition validate (self : QueryComplexity) (plan : OperationPlan) : Valid unit string :=
  let c := complexity plan in
  if Nat.ltb self c then Valid.fail "Query Complexity validation failed."
  else Valid.succeed tt.

(** Plans of the two queries of the module's tests: one node per selected
    field, mirroring the selection set. *)
Definition leaf (n : string) : Field := mkField n [].

Definition plan_flat : OperationPlan :=
  [mkField "posts" [leaf "id"; leaf "userId"; leaf "title"]].

Definition plan_nested : OperationPlan :=
  [mkField "posts" [leaf "id"; leaf "title"; mkField "user" [leaf "id"; leaf "name"]]].

(** The number of field nodes in a subtree (a measure for the lemmas, not
    code of the rule). *)
Fixpoint node_count (f : Field) : nat :=
  match f with
  | mkField _ cs =>
      S ((fix count (fs : list Field) : nat :=
            match fs with [] => 0 | c :: rest => node_count c + count rest end) cs)
  end.

End QueryComplexity.

(** ** Request template (Mustache) engine

    Only the benchmark that drives it is under src/: the parser and renderer
    are modelled from the spec (section 4.2). *)
Module Template.

(** The [serde_json::Value] of the benchmark's [Context]. *)
Inductive JsonValue : Type :=
| JNull : JsonValue
| JBool : bool -> JsonValue
| JNumber : Z -> JsonValue
| JString : string -> JsonValue
| JArray : list JsonValue -> JsonValue
| JObject : list (string * JsonValue) -> JsonValue.

Fixpoint assoc_get {A} (k : string) (m : list (string * A)) : option A :=
  match m with
  | [] => None
  | (k', v) :: m' => if String.eqb k k' then Some v else assoc_get k m'
  end.

(** Modelled from the spec: [JsonLike::get_path], a key-by-key descent through
    objects; a missing key or a non-object yields [None]. *)
Fixpoint get_path (v : JsonValue) (path : list string) : option JsonValue :=
  match path with
  | [] => Some v
  | k :: rest =>
      match v with
      | JObject m => match assoc_get k m with
                     | Some v' => get_path v' rest
                     | None => None
                     end
      | _ => None
      end
  end.

Definition dq : string := String (ascii_of_nat 34) EmptyString.

Definition Z_to_string (z : Z) : string := NilEmpty.string_of_int (Z.to_int z).

(** Modelled from the spec: the canonical string form of a scalar; a list is
    comma-joined (the default encoding strategy); an object renders as
    its JSON text. *)
Fixpoint to_string (v : JsonValue) : string :=
  match v with
  | JNull => "null"
  | JBool b => if b then "true" else "false"
  | JNumber z => Z_to_string z
  | JString s => s
  | JArray vs => String.concat "," (List.map to_string vs)
  | JObject m =>
      "{" ++ String.concat ","
               (List.map (fun '(k, x) => dq ++ k ++ dq ++ ":" ++ to_string x) m) ++ "}"
  end.

(** The [PathString] capability of a rendering context. *)
Class PathString (C : Type) := path_string : C -> list string -> option string.

(** Modelled from the spec: [PathString] for a JSON value, as the benchmark's
    [Context] delegates [self.value.path_string(parts)]. *)
#[export] Instance json_path_string : PathString JsonValue :=
  fun v parts => option_map to_string (get_path v parts).

(** A template segment: literal text or a dotted path expression. *)
Inductive Segment : Type :=
| Literal : string -> Segment
| Expression : list string -> Segment.

Definition Mustache := list Segment.

(** Modelled from the spec: rendering emits each literal as is and each
    expression as the context's string for its path, or nothing when the
    path resolves to absent. *)
Definition render_segment {C} `{PathString C} (ctx : C) (seg : Segment) : string :=
  match seg with
  | Literal s => s
  | Expression parts =>
      match path_string ctx parts with Some s => s | None => "" end
  end.

Definition render {C} `{PathString C} (ctx : C) (m : Mustache) : string :=
  String.concat "" (List.map (render_segment ctx) m).

(** Modelled from the spec: parsing.  The template is scanned once; [{{]
    opens an expression and [}}] closes it; the expression is a dotted path,
    surrounding spaces and a leading dot ignored.  An unclosed [{{] stays
    literal text. *)
Fixpoint split_on (sep : ascii) (s : string) : list string :=
  match s with
  | EmptyString => [""]
  | String c rest =>
      match split_on sep rest with
      | [] => [String c ""]
      | w :: ws => if Ascii.eqb c sep then "" :: w :: ws else String c w :: ws
      end
  end.

Fixpoint strip_spaces (s : string) : string :=
  match s with
  | String c rest => if Ascii.eqb c " " then strip_spaces rest else s
  | EmptyString => EmptyString
  end.

Definition rev_string (s : string) : string :=
  string_of_list_ascii (List.rev (list_ascii_of_string s)).

Definition trim (s : string) : string := rev_string (strip_spaces (rev_string (strip_spaces s))).

Definition parse_path (expr : string) : list string :=
  match split_on "." (trim expr) with
  | "" :: parts => parts
  | parts => parts
  end.

Definition sources : list string := ["args"; "vars"; "headers"; "env"].

(** Parsing fails when a path has no segment or names an unknown source. *)
Definition check_expr (parts : list string) : option Segment :=
  match parts with
  | [] => None
  | src :: _ => if existsb (String.eqb src) sources then Some (Expression parts) else None
  end.

Definition push_literal (lit : string) (acc : Mustache) : Mustache :=
  if String.eqb lit "" then acc else (acc ++ [Literal lit])%list.

(** [cur] is the text read since the last boundary (reversed); [in_expr]
    tells whether it is inside [{{ ... }}]. *)
Fixpoint scan (s : string) (in_expr : bool) (cur : list ascii) (acc : Mustache)
  : option Mustache :=
  match s with
  | EmptyString =>
      let text := string_of_list_ascii (List.rev cur) in
      Some (push_literal (if in_expr then "{{" ++ text else text) acc)
  | String c1 tl =>
      match tl with
      | String c2 rest =>
          if negb in_expr && Ascii.eqb c1 "{" && Ascii.eqb c2 "{" then
            scan rest true [] (push_literal (string_of_list_ascii (List.rev cur)) acc)
          else if in_expr && Ascii.eqb c1 "}" && Ascii.eqb c2 "}" then
            match check_expr (parse_path (string_of_list_ascii (List.rev cur))) with
            | Some seg => scan rest false [] (acc ++ [seg])%list
            | None => None
            end
          else scan tl in_expr (c1 :: cur) acc
      | EmptyString => scan tl in_expr (c1 :: cur) acc
      end
  end.

(** No [{{] occurs in the text. *)
Fixpoint no_open (s : string) : bool :=
  match s with
  | String c1 ((String c2 _) as tl) =>
      negb (Ascii.eqb c1 "{" && Ascii.eqb c2 "{") && no_open tl
  | _ => true
  end.

Definition parse (s : string) : option Mustache := scan s false [] [].

(** Parse then render, as [RequestTemplate::try_from] and [to_request] do
    for the URL of an endpoint. *)
Definition render_url {C} `{PathString C} (tmpl : string) (ctx : C) : option string :=
  option_map (render ctx) (parse tmpl).

(** The benchmark's templates and context. *)
Definition tmpl_mustache : string :=
  "http://localhost:3000/{{args.b}}?a={{args.a}}&b={{args.b}}&c={{args.c}}".
Definition tmpl_literal : string := "http://localhost:3000/foo?a=bar&b=foo&c=baz".
Definition bench_ctx : JsonValue := JObject [("args", JObject [("b", JString "foo")])].

End Template.

(** ** Blueprint operator [extension] *)
Module Extension.

Section Operator.

(** [config::Extension<serde_json::Value>]: the extension's own payload. *)
Variable ExtensionConfig : Type.
(** [config::Type], the enclosing type of the field. *)
Variable ConfigType : Type.
(** The remaining parts of a field's configuration (http, grpc, ...). *)
Variable FieldRest : Type.

(** [ir::model::Rust] *)
Record Rust := { lib : string; extension : ExtensionConfig }.

(** [ir::model::IO]: the I/O variants, the [Rust] one with its payload. *)
Inductive IO :=
| IO_Http
| IO_GraphQL
| IO_Grpc
| IO_Js
| IO_Rust (rust : Rust).

(** [ir::model::IR] *)
Inductive IR :=
| IR_ContextPath (path : list string)
| IR_Dynamic
| IR_IO (io : IO)
| IR_Cache (inner : IR)
| IR_Map (inner : IR).

(** [config::Extensions] and [ConfigModule::extensions()] *)
Record Extensions := { rust_lib : option string }.
Record ConfigModule := { extensions : Extensions }.

(** [config::Field], with the [extension] option it is dispatched on. *)
Record Field := { field_extension : option ExtensionConfig; field_rest : FieldRest }.

(** [blueprint::FieldDefinition] *)
Record FieldDefinition := {
  fd_name : string;
  fd_args : list string;
  fd_of_type : string;
  fd_resolver : option IR;
  fd_directives : list string;
  fd_description : option string;
  fd_default_value : option Template.JsonValue
}.

(** The [derive_setters] setter [FieldDefinition::resolver]. *)
Definition set_resolver (f : FieldDefinition) (r : option IR) : FieldDefinition :=
  {| fd_name := fd_name f; fd_args := fd_args f; fd_of_type := fd_of_type f;
     fd_resolver := r; fd_directives := fd_directives f;
     fd_description := fd_description f; fd_default_value := fd_default_value f |}.

(** [FieldDefinition::validate_field], defined outside this file. *)
Variable validate_field : FieldDefinition -> ConfigType -> ConfigModule -> Valid unit string.

Definition compile_extension (ext : ExtensionConfig) (config_module : ConfigModule)
  : Valid IR string :=
  Valid.and_then
    (Valid.from_option (rust_lib (extensions config_module))
       "A @link with path to dylib is required")
    (fun lib => Valid.succeed (IR_IO (IO_Rust {| lib := lib; extension := ext |}))).

(** [TryFold<(&ConfigModule, &Field, &config::Type, &str), FieldDefinition, String>] *)
Definition TryFold (I O : Type) := I -> O -> Valid O string.

Definition update_extension
  : TryFold (ConfigModule * Field * ConfigType * string) FieldDefinition :=
  fun '(config_module, field, type_of, _) b_field =>
    match field_extension field with
    | None => Valid.succeed b_field
    | Some extension =>
        Valid.and_then
          (Valid.map (fun resolver => set_resolver b_field (Some resolver))
             (compile_extension extension config_module))
          (fun b_field =>
             Valid.map_to (validate_field b_field type_of config_module) b_field)
    end.

End Operator.

Arguments IO_Rust {ExtensionConfig} rust.
Arguments IR_IO {ExtensionConfig} io.
Arguments Build_Rust {ExtensionConfig} lib extension.
Arguments Build_Field {ExtensionConfig FieldRest} field_extension field_rest.
Arguments fd_resolver {ExtensionConfig} _.
Arguments fd_name {ExtensionConfig} _.
Arguments fd_args {ExtensionConfig} _.
Arguments fd_of_type {ExtensionConfig} _.
Arguments fd_directives {ExtensionConfig} _.
Arguments fd_description {ExtensionConfig} _.
Arguments fd_default_value {ExtensionConfig} _.
Arguments field_extension {ExtensionConfig FieldRest} _.
Arguments field_rest {ExtensionConfig FieldRest} _.
Arguments set_resolver {ExtensionConfig} f r.
Arguments compile_extension {ExtensionConfig} ext config_module.
Arguments update_extension {ExtensionConfig ConfigType FieldRest} validate_field _ _.

(** A field definition and a [validate_field] accepting everything, for
    concrete runs. *)
Definition sample_field_def : FieldDefinition unit :=
  {| fd_name := "posts"; fd_args := []; fd_of_type := "Post"; fd_resolver := None;
     fd_directives := []; fd_description := None; fd_default_value := None |}.

Definition accept_all (_ : FieldDefinition unit) (_ : unit) (_ : ConfigModule)
  : Valid unit string := Succeed tt.

End Extension.

(** ** JIT executor: [JITExecutor::execute] and [ConstValueExecutor] *)
Module JitExecutor.

Section Executor.

(** Opaque types of the engine that these two files only pass around. *)
Variables (AsyncRequest Request Blueprint Plan Error ServerError : Type).
Variables (Store JitResponse Value IRNode Variables : Type).

(** The observable effect of execution: the IR nodes evaluated, in order. *)
Inductive Event := EvalIR (ir : IRNode).

(** A writer monad recording the IR evaluations of a run. *)
Definition M (A : Type) : Type := (list Event * A)%type.
Definition ret {A} (a : A) : M A := ([], a).
Definition bind {A B} (m : M A) (k : A -> M B) : M B :=
  let '(t1, a) := m in let '(t2, b) := k a in ((t1 ++ t2)%list, b).

Local Notation "x <- m ;; k" := (bind m (fun x => k)) (at level 61, m at next level, right associativity).

(** [jit::Request::from], [Request::create_plan], [Request::variables]. *)
Variable request_from : AsyncRequest -> Request.
Variable create_plan : Request -> Blueprint -> Error + Plan.
Variable request_variables : Request -> Variables.
(** [Error::into_server_error], [Response::into_async_graphql]. *)
Variable into_server_error : Error -> ServerError.

(** [async_graphql::Response]: [data] is [None] for [Value::Null], the
    default. *)
Record Response := { data : option Value; errors : list ServerError }.
Variable into_async_graphql : JitResponse -> Response.

Definition from_errors (errs : list ServerError) : Response :=
  {| data := None; errors := errs |}.

Record AppContext := { blueprint : Blueprint }.
Record ConstValueExecutor := { plan : Plan }.
Record Synth := { synth_plan : Plan; synth_store : Store; synth_vars : Variables }.

(** [Executor::store] and [Executor::execute] of [exec.rs]: where the IR
    nodes of the plan are evaluated. *)
Variable executor_store : Plan -> Request -> M Store.
Variable executor_execute : Plan -> Synth -> M JitResponse.

Definition ConstValueExecutor_new (request : Request) (app_ctx : AppContext)
  : Error + ConstValueExecutor :=
  match create_plan request (blueprint app_ctx) with
  | inl e => inl e
  | inr p => inr {| plan := p |}
  end.

Definition ConstValueExecutor_execute (self : ConstValueExecutor) (request : Request)
  : M JitResponse :=
  let p := plan self in
  let vars := request_variables request in
  store <- executor_store p request ;;
  executor_execute p {| synth_plan := p; synth_store := store; synth_vars := vars |}.

Record JITExecutor := { app_ctx : AppContext }.

Definition JITExecutor_execute (self : JITExecutor) (request : AsyncRequest) : M Response :=
  let request := request_from request in
  match ConstValueExecutor_new request (app_ctx self) with
  | inr exec =>
      resp <- ConstValueExecutor_execute exec request ;;
      ret (into_async_graphql resp)
  | inl error => ret (from_errors [into_server_error error])
  end.

End Executor.

Arguments app_ctx {Blueprint} _.
Arguments blueprint {Blueprint} _.
Arguments data {ServerError Value} _.
Arguments errors {ServerError Value} _.
Arguments Build_Response {ServerError Value} data errors.
Arguments Build_AppContext {Blueprint} blueprint.
Arguments Build_JITExecutor {Blueprint} app_ctx.
Arguments JITExecutor_execute {AsyncRequest Request Blueprint Plan Error ServerError Store
  JitResponse Value IRNode Variables} request_from create_plan request_variables
  into_server_error into_async_graphql executor_store executor_execute self request.

End JitExecutor.

(** ** Rust panics: a computation either returns or panics *)
Module Panic.

Inductive Outcome (A : Type) : Type :=
| Returns : A -> Outcome A
| Panics : string -> Outcome A.
Arguments Returns {A} _.
Arguments Panics {A} _.

(** Slice indexing [xs[i]]: panics out of bounds. *)
Definition index {A} (xs : list A) (i : nat) : Outcome A :=
  match nth_error xs i with
  | Some x => Returns x
  | None => Panics "index out of bounds"
  end.

(** [Option::unwrap] *)
Definition unwrap {A} (o : option A) : Outcome A :=
  match o with
  | Some x => Returns x
  | None => Panics "called `Option::unwrap()` on a `None` value"
  end.

End Panic.
Import Panic.

(** ** [ConfigReaderContext] and its [PathString] *)
Module ReaderContext.

(** [BTreeMap<String, String>] as a key-ordered association list. *)
Definition BTreeMap := list (string * string).

Definition btree_get (k : string) (m : BTreeMap) : option string :=
  Template.assoc_get k m.

(** [TargetRuntime]: only its [env] is read here, [EnvIO::get]. *)
Record TargetRuntime := { env : string -> option string }.

Record ConfigReaderContext := {
  runtime : TargetRuntime;
  vars : BTreeMap
}.

Definition path_string (self : ConfigReaderContext) (path : list string)
  : Outcome (option string) :=
  if (match path with [] => true | _ => false end) then Returns None
  else
    match path with
    | [] => Returns None
    | head :: tail =>
        if String.eqb head "vars" then
          match index tail 0 with
          | Returns k => Returns (btree_get k (vars self))
          | Panics m => Panics m
          end
        else if String.eqb head "env" then
          match index tail 0 with
          | Returns k => Returns (env (runtime self) k)
          | Panics m => Panics m
          end
        else Returns None
    end.

(** The context of the module's test. *)
Definition test_env (k : string) : option string :=
  if String.eqb k "ENV_1" then Some "ENV_VAL" else None.

Definition test_ctx : ConfigReaderContext :=
  {| runtime := {| env := test_env |}; vars := [("VAR_1", "VAR_VAL")] |}.

End ReaderContext.

(** ** OpenAPI query generator: [TypeName] and [get_schema_type] *)
Module QueryGenerator.

(** [oas3::spec::SchemaType] *)
Inductive SchemaType := Boolean | Integer | Number | SString | Array | Object.

Definition SchemaType_eqb (a b : SchemaType) : bool :=
  match a, b with
  | Boolean, Boolean | Integer, Integer | Number, Number
  | SString, SString | Array, Array | Object, Object => true
  | _, _ => false
  end.

(** [oas3::Schema] (the fields read here) and [ObjectOrReference<Schema>]. *)
Inductive Schema :=
| mkSchema (items : option ObjOrRef) (schema_type : option SchemaType)
    (enum_values : list string) (properties : list (string * ObjOrRef))
    (all_of any_of one_of : list ObjOrRef)
with ObjOrRef :=
| Ref (ref_path : string)
| Obj (schema : Schema).

Definition schema_type (s : Schema) : option SchemaType :=
  match s with mkSchema _ t _ _ _ _ _ => t end.
Definition enum_values (s : Schema) : list string :=
  match s with mkSchema _ _ e _ _ _ _ => e end.

Definition items (s : Schema) : option ObjOrRef :=
  match s with mkSchema i _ _ _ _ _ _ => i end.

(** [OpenApiV3Spec]: the components a reference path resolves to. *)
Definition OpenApiV3Spec := list (string * Schema).

(** [ObjectOrReference::resolve] *)
Definition resolve (spec : OpenApiV3Spec) (o : ObjOrRef) : string + Schema :=
  match o with
  | Obj s => inr s
  | Ref p => match Template.assoc_get p spec with
             | Some s => inr s
             | None => inl ("Unable to resolve reference " ++ p)
             end
  end.

Inductive TypeName :=
| ListOf (inner : TypeName)
| Name (name : string).

Definition name (t : TypeName) : option string :=
  match t with ListOf _ => None | Name n => Some n end.

Definition into_tuple (t : TypeName) : Outcome (bool * string) :=
  match t with
  | ListOf inner =>
      match unwrap (name inner) with
      | Returns n => Returns (true, n)
      | Panics m => Panics m
      end
  | Name n => Returns (false, n)
  end.

Section Generator.

(** [to_case(Case::Pascal)] of the [convert_case] crate. *)
Variable to_pascal : string -> string.

Definition last_segment (p : string) : string :=
  List.last (Template.split_on "/" p) "".

Definition name_from_ref_path (o : ObjOrRef) : option string :=
  match o with
  | Ref p => Some (to_pascal (last_segment p))
  | Obj _ => None
  end.

Definition schema_type_to_string (t : SchemaType) : string :=
  match t with
  | Boolean => "Boolean" | SString => "String" | Array => "Array" | Object => "Object"
  | Integer | Number => "Int"
  end.

Definition schema_to_primitive_type (t : SchemaType) : option string :=
  match t with
  | Array | Object => None
  | x => Some (schema_type_to_string x)
  end.

Definition is_empty {A} (l : list A) : bool := match l with [] => true | _ => false end.

Definition can_define_type (s : Schema) : bool :=
  match s with
  | mkSchema _ _ ev props all any one =>
      negb (is_empty props) || negb (is_empty all) || negb (is_empty any)
      || negb (is_empty one) || negb (is_empty ev)
  end.

Definition unknown_type : string := "Unknown".

Definition is_string_enum (s : Schema) : bool :=
  match schema_type s with
  | Some SString => negb (is_empty (enum_values s))
  | _ => false
  end.

(** [SingleQueryGenerator::get_schema_type].  In the [items] branch the
    source asks [name_from_ref_path(element)] first: it names every [Ref],
    so the recursive call is reached only for an inline [Obj s], whose
    resolved schema is [s]; the match on [element] below makes this visible
    to Rocq's structural recursion. *)
Fixpoint get_schema_type (spec : OpenApiV3Spec) (schema : Schema) (name : option string)
  : string + TypeName :=
  match schema with
  | mkSchema (Some element) _ _ _ _ _ _ =>
      match resolve spec element with
      | inl err => inl err
      | inr inner_schema =>
          if is_string_enum inner_schema then inr (ListOf (Name unknown_type))
          else
            match element with
            | Ref p => inr (ListOf (Name (to_pascal (last_segment p))))
            | Obj s =>
                match match schema_type inner_schema with
                      | Some t => schema_to_primitive_type t
                      | None => None
                      end with
                | Some n => inr (ListOf (Name n))
                | None =>
                    match get_schema_type spec s None with
                    | inl err => inl err
                    | inr t => inr (ListOf t)
                    end
                end
            end
      end
  | mkSchema None st _ _ _ _ _ =>
      if is_string_enum schema then inr (Name unknown_type)
      else
        match st with
        | Some ((Integer | SString | Number | Boolean) as typ) =>
            inr (Name (schema_type_to_string typ))
        | _ =>
            match name with
            | Some n => inr (Name n)
            | None => if can_define_type schema then inr (Name unknown_type)
                      else inr (Name "JSON")
            end
        end
  end.

End Generator.

(** A schema of the given type with no other keyword. *)
Definition plain (items : option ObjOrRef) (t : SchemaType) : Schema :=
  mkSchema items (Some t) [] [] [] [] [].

(** [{type: array, items: {type: array, items: {type: string}}}], all inline. *)
Definition nested_array_schema : Schema :=
  plain (Some (Obj (plain (Some (Obj (plain None SString))) Array))) Array.

End QueryGenerator.

(** ** [TailcallHasher]: a wrapper around [fnv::FnvHasher] (64-bit FNV-1a) *)
Module Hasher.

Definition u64_modulus : Z := 2 ^ 64.
Definition fnv_offset_basis : Z := 14695981039346656037.
Definition fnv_prime : Z := 1099511628211.

(** [fnv::FnvHasher]: its 64-bit state. *)
Record FnvHasher := { fnv_state : Z }.

(** [FnvHasher::default()] *)
Definition fnv_default : FnvHasher := {| fnv_state := fnv_offset_basis |}.

(** [FnvHasher::write]: per byte, xor then wrapping multiply. *)
Definition fnv_write (h : FnvHasher) (bytes : list Byte.byte) : FnvHasher :=
  {| fnv_state :=
       fold_left (fun hash b => Z.modulo (Z.lxor hash (Z.of_N (Byte.to_N b)) * fnv_prime)
                                         u64_modulus)
                 bytes (fnv_state h) |}.

Definition fnv_finish (h : FnvHasher) : Z := fnv_state h.

Record TailcallHasher := { hasher : FnvHasher }.

Definition finish (self : TailcallHasher) : Z := fnv_finish (hasher self).
Definition write (self : TailcallHasher) (bytes : list Byte.byte) : TailcallHasher :=
  {| hasher := fnv_write (hasher self) bytes |}.

(** [#[derive(Default)]] *)
Definition TailcallHasher_default : TailcallHasher := {| hasher := fnv_default |}.

(** The unit struct [TailcallBuildHasher]. *)
Inductive TailcallBuildHasher := mkTailcallBuildHasher.

Definition build_hasher (_ : TailcallBuildHasher) : TailcallHasher := TailcallHasher_default.

(** One byte of [FnvHasher::write]: the function folded by [fnv_write]. *)
Definition fnv_mix (hash : Z) (b : Byte.byte) : Z :=
  Z.modulo (Z.lxor hash (Z.of_N (Byte.to_N b)) * fnv_prime) u64_modulus.

(** A sequence of [write] calls. *)
Definition write_all (h : TailcallHasher) (calls : list (list Byte.byte)) : TailcallHasher :=
  fold_left write calls h.

(** 64-bit FNV-1a of a byte string. *)
Definition fnv1a64 (bytes : list Byte.byte) : Z :=
  fnv_state (fnv_write fnv_default bytes).

End Hasher.

(** ** Batching of resolver calls within one wave *)
Module Batching.

Section Wave.

(** A resolver call: its IR and rendered parameters, compared structurally. *)
Variable Key : Type.
Variable key_eq_dec : forall a b : Key, {a = b} + {a <> b}.
(** The value an upstream call returns. *)
Variable Result : Type.
(** The transport: performing one upstream call. *)
Variable upstream : Key -> Result.

(** Modelled from the spec: the executor's deduplication of the resolver
    calls of one concurrent wave (section 4.4, "Batching").  Calls are
    keyed by IR and rendered parameters; the first call with a key goes
    upstream and records its result, later calls with an equal key in the
    same wave receive the recorded result. *)
Record WaveState := {
  inflight : list (Key * Result);
  upstream_calls : list Key
}.

Fixpoint lookup (k : Key) (m : list (Key * Result)) : option Result :=
  match m with
  | [] => None
  | (k', r) :: m' => if key_eq_dec k k' then Some r else lookup k m'
  end.

Definition request (st : WaveState) (k : Key) : WaveState * Result :=
  match lookup k (inflight st) with
  | Some r => (st, r)
  | None =>
      let r := upstream k in
      ({| inflight := (k, r) :: inflight st;
          upstream_calls := (upstream_calls st ++ [k])%list |}, r)
  end.

Fixpoint run_from (st : WaveState) (ks : list Key) : WaveState * list Result :=
  match ks with
  | [] => (st, [])
  | k :: ks' =>
      let '(st1, r) := request st k in
      let '(st2, rs) := run_from st1 ks' in
      (st2, r :: rs)
  end.

(** The calls of one wave, one per requesting plan node, in order: the
    upstream calls made and what each requester receives. *)
Definition run_wave (ks : list Key) : WaveState * list Result :=
  run_from {| inflight := []; upstream_calls := [] |} ks.

(** Every recorded result is the upstream's; a key is recorded iff it was
    called upstream; no key is called twice. *)
Definition wave_inv (st : WaveState) : Prop :=
  (forall k r, lookup k (inflight st) = Some r -> r = upstream k) /\
  (forall k, lookup k (inflight st) <> None <-> In k (upstream_calls st)) /\
  NoDup (upstream_calls st).

End Wave.

End Batching.

(** ** [InferArgsName::generate] (cli/llm/infer_arg_name.rs): choosing a new
    name for every argument of the non-root types *)
Module InferArgName.

(** [config::Arg], the part read here. *)
Record Arg := { type_of : string }.
(** [config::Field]: its [args: BTreeMap<String, Arg>]. *)
Record Field := { args : list (string * Arg) }.
(** [config::Type]: its [fields: BTreeMap<String, Field>]. *)
Record Type_ := { fields : list (string * Field) }.
(** [config::Config]: its [types: BTreeMap<String, Type>]. *)
Record Config := { types : list (string * Type_) }.

Definition contains_key {A} (k : string) (m : list (string * A)) : bool :=
  existsb (fun '(k', _) => String.eqb k k') m.

Section Generate.

(** [Config::is_root_operation_type], defined outside this file. *)
Variable is_root_operation_type : Config -> string -> bool.
(** The suggestions of the answer [wizard.ask] eventually returns for a
    question [(arg_name, type_of)]: the loop retries on every error and
    leaves only on [Ok(answer)]. *)
Variable suggestions : string * string -> list string.

Definition args_to_be_processed (config : Config) : list (string * Arg) :=
  List.concat
    (List.concat
       (List.map (fun '(_, ty) => List.map (fun '(_, v) => args v) (fields ty))
          (List.filter (fun '(type_name, _) => negb (is_root_operation_type config type_name))
             (types config)))).

(** The inner [for name in answer.suggestions] loop: insert the first name
    that is neither a type nor already a key, then [break]. *)
Fixpoint pick (config : Config) (arg_name : string) (names : list string)
  (new_name_mappings : list (string * string)) : list (string * string) :=
  match names with
  | [] => new_name_mappings
  | name :: rest =>
      if contains_key name (types config) || contains_key name new_name_mappings
      then pick config arg_name rest new_name_mappings
      else (new_name_mappings ++ [(name, arg_name)])%list
  end.

Definition step (config : Config) (new_name_mappings : list (string * string))
  (a : string * Arg) : list (string * string) :=
  let '(arg_name, arg) := a in
  pick config arg_name (suggestions (arg_name, type_of arg)) new_name_mappings.

(** [new_name_mappings] after the loop over all arguments; the map is kept
    in insertion order. *)
Definition name_mappings (config : Config) : list (string * string) :=
  fold_left (step config) (args_to_be_processed config) [].

(** [new_name_mappings.into_iter().map(|(k, v)| (v, k))]: the pairs
    (argument name, new name) collected into the result map. *)
Definition generate (config : Config) : list (string * string) :=
  List.map (fun '(k, v) => (v, k)) (name_mappings config).

End Generate.

(** The retry delay: [let mut delay = 3], then after each [GenAI] error
    [delay *= std::cmp::min(delay * 2, 60)]. *)
Definition delay_next (delay : Z) : Z := delay * Z.min (delay * 2) 60.

(** The delay after [n] consecutive [GenAI] errors for one argument. *)
Fixpoint delay_after (n : nat) : Z :=
  match n with O => 3 | S n' => delay_next (delay_after n') end.

End InferArgName.

(** ** Lemmas *)

Module QueryComplexityFacts.
Import QueryComplexity.

Lemma fold_add_acc (l : list nat) (a : nat) :
  fold_left Nat.add l a = a + fold_left Nat.add l 0.
Proof.
  revert a; induction l as [|x l IH]; intro a; simpl; [lia|].
  rewrite (IH (a + x)), (IH x); lia.
Qed.

Lemma sum_cons (x : nat) (l : list nat) : sum (x :: l) = x + sum l.
Proof. unfold sum; simpl; apply fold_add_acc. Qed.

(** The inner loop of [complexity_helper] adds the children's complexities
    to its accumulator. *)
Lemma helper_loop (cs : list Field) (acc : nat) :
  (fix go (fs : list Field) (complexity : nat) : nat :=
     match fs with
     | [] => complexity
     | child :: rest => go rest (complexity + complexity_helper child)
     end) cs acc = acc + sum (List.map complexity_helper cs).
Proof.
  revert acc; induction cs as [|c cs IH]; intro acc; simpl; [unfold sum; simpl; lia|].
  rewrite IH, sum_cons; lia.
Qed.

(** ** C1: the complexity of a field node is 1 plus the sum of its children's;
    the total is the sum over top-level nodes; [validate] succeeds iff the
    total is within budget; the two test queries have complexity 4 and 6. *)
Theorem query_complexity_spec :
  (forall f : Field,
      complexity_helper f = 1 + sum (List.map complexity_helper (children f))) /\
  (forall plan : OperationPlan,
      complexity plan = sum (List.map complexity_helper plan)) /\
  (forall (budget : QueryComplexity) (plan : OperationPlan),
      is_succeed (validate budget plan) = true <-> complexity plan <= budget) /\
  (complexity plan_flat = 4 /\
   is_succeed (validate 4 plan_flat) = true /\
   is_succeed (validate 2 plan_flat) = false) /\
  (complexity plan_nested = 6 /\
   is_succeed (validate 6 plan_nested) = true /\
   is_succeed (validate 5 plan_nested) = false).
Proof.
  split; [|split; [|split]].
  - intros [n cs]; simpl; apply helper_loop.
  - reflexivity.
  - intros budget plan; unfold validate; simpl.
    destruct (Nat.ltb budget (complexity plan)) eqn:E; simpl.
    + apply Nat.ltb_lt in E; split; [discriminate|lia].
    + apply Nat.ltb_ge in E; split; [lia|reflexivity].
  - repeat split; reflexivity.
Qed.

End QueryComplexityFacts.

Module TemplateFacts.
Import Template.

Lemma append_empty_r (s : string) : s ++ "" = s.
Proof. induction s as [|c s IH]; simpl; [reflexivity|now rewrite IH]. Qed.

Lemma append_assoc (a b c : string) : a ++ (b ++ c) = (a ++ b) ++ c.
Proof. induction a as [|x a IH]; simpl; [reflexivity|now rewrite IH]. Qed.

Lemma concat_empty_cons (x : string) (l : list string) :
  String.concat "" (x :: l) = x ++ String.concat "" l.
Proof. destruct l; simpl; [symmetry; apply append_empty_r|reflexivity]. Qed.

Lemma concat_empty_app (l1 l2 : list string) :
  String.concat "" (l1 ++ l2)%list = String.concat "" l1 ++ String.concat "" l2.
Proof.
  induction l1 as [|x l1 IH]; [reflexivity|].
  simpl app; rewrite !concat_empty_cons, IH; apply append_assoc.
Qed.

Lemma render_app {C} `{PathString C} (ctx : C) (m1 m2 : Mustache) :
  render ctx (m1 ++ m2)%list = render ctx m1 ++ render ctx m2.
Proof. unfold render; rewrite List.map_app; apply concat_empty_app. Qed.

Lemma render_cons {C} `{PathString C} (ctx : C) (seg : Segment) (m : Mustache) :
  render ctx (seg :: m) = render_segment ctx seg ++ render ctx m.
Proof. unfold render; simpl List.map; apply concat_empty_cons. Qed.

Lemma string_of_list_ascii_app (l1 l2 : list ascii) :
  string_of_list_ascii (l1 ++ l2)%list = string_of_list_ascii l1 ++ string_of_list_ascii l2.
Proof. induction l1 as [|c l1 IH]; simpl; [reflexivity|now rewrite IH]. Qed.

Lemma scan_string2 (c1 c2 : ascii) (rest : string) (b : bool) (cur : list ascii)
  (acc : Mustache) :
  scan (String c1 (String c2 rest)) b cur acc
  = if negb b && Ascii.eqb c1 "{" && Ascii.eqb c2 "{" then
      scan rest true [] (push_literal (string_of_list_ascii (List.rev cur)) acc)
    else if b && Ascii.eqb c1 "}" && Ascii.eqb c2 "}" then
      match check_expr (parse_path (string_of_list_ascii (List.rev cur))) with
      | Some seg => scan rest false [] (acc ++ [seg])%list
      | None => None
      end
    else scan (String c2 rest) b (c1 :: cur) acc.
Proof. reflexivity. Qed.

(** Outside an expression, text without [{{] is accumulated into one literal. *)
Lemma scan_literal (s : string) (cur : list ascii) (acc : Mustache) :
  no_open s = true ->
  scan s false cur acc
  = Some (push_literal (string_of_list_ascii (List.rev cur) ++ s) acc).
Proof.
  revert cur; induction s as [|c1 tl IH]; intros cur Hno.
  - simpl; now rewrite append_empty_r.
  - assert (Hstep : string_of_list_ascii (List.rev (c1 :: cur)) ++ tl
                    = string_of_list_ascii (List.rev cur) ++ String c1 tl).
    { simpl List.rev; rewrite string_of_list_ascii_app, <- append_assoc; reflexivity. }
    destruct tl as [|c2 rest].
    + simpl; rewrite string_of_list_ascii_app; reflexivity.
    + simpl in Hno; apply andb_prop in Hno as [Hc Hno].
      apply negb_true_iff in Hc.
      rewrite scan_string2; cbn [negb andb]; rewrite Hc.
      rewrite (IH (c1 :: cur) Hno), Hstep; reflexivity.
Qed.

(** ** C2: rendering is total; an expression whose path is absent in the
    context renders as empty while the literal text around it is still
    emitted; the benchmark's template rendered against [{args: {b: "foo"}}]
    gives [http://localhost:3000/foo?a=&b=foo&c=]. *)
Theorem render_missing_key_empty :
  (forall (C : Type) `{PathString C} (ctx : C) (pre post : Mustache) (p : list string),
      path_string ctx p = None ->
      render ctx (pre ++ Expression p :: post)%list = render ctx pre ++ render ctx post) /\
  render_url tmpl_mustache bench_ctx = Some "http://localhost:3000/foo?a=&b=foo&c=".
Proof.
  split.
  - intros C PS ctx pre post p Hnone.
    rewrite render_app, render_cons; simpl render_segment; rewrite Hnone; reflexivity.
  - vm_compute; reflexivity.
Qed.

(** ** C8: a template made only of literal segments renders to its literal
    text, whatever the context; in particular a template string with no
    [{{] (such as the benchmark's literal URL) renders to itself. *)
Theorem render_literal_roundtrip :
  forall (C : Type) `{PathString C} (ctx : C),
    (forall lits : list string,
        render ctx (List.map Literal lits) = String.concat "" lits) /\
    (forall s : string, no_open s = true -> render_url s ctx = Some s).
Proof.
  intros C PS ctx; split.
  - intro lits; unfold render; rewrite List.map_map; simpl; rewrite List.map_id; reflexivity.
  - intros s Hno; unfold render_url, parse.
    rewrite scan_literal by exact Hno; simpl.
    unfold push_literal; destruct (String.eqb s "") eqn:E; simpl.
    + apply String.eqb_eq in E; subst; reflexivity.
    + unfold render; simpl; reflexivity.
Qed.

End TemplateFacts.

Module ExtensionFacts.
Import Extension.

Section Facts.
Variables (ExtensionConfig ConfigType FieldRest : Type).
Variable validate_field :
  FieldDefinition ExtensionConfig -> ConfigType -> ConfigModule -> Valid unit string.

(** ** C4: for a field with an extension operator, a configuration without a
    dylib path makes the step fail with the named message (a [Valid]
    failure, not a panic); with a path, [compile_extension] yields
    [IR::IO(IO::Rust)] and the step attaches it as the field's resolver and
    then runs [validate_field] on that field, returning it. *)
Theorem extension_requires_dylib
  (config_module : ConfigModule) (ext : ExtensionConfig) (rest : FieldRest)
  (type_of : ConfigType) (name : string) (b_field : FieldDefinition ExtensionConfig) :
  let field := {| field_extension := Some ext; field_rest := rest |} in
  (rust_lib (extensions config_module) = None ->
     compile_extension ext config_module = Fail ["A @link with path to dylib is required"] /\
     update_extension validate_field (config_module, field, type_of, name) b_field
     = Fail ["A @link with path to dylib is required"]) /\
  (forall lib : string,
     rust_lib (extensions config_module) = Some lib ->
     let resolved := set_resolver b_field
                       (Some (IR_IO (IO_Rust {| lib := lib; extension := ext |}))) in
     compile_extension ext config_module
       = Succeed (IR_IO (IO_Rust {| lib := lib; extension := ext |})) /\
     fd_resolver resolved = Some (IR_IO (IO_Rust {| lib := lib; extension := ext |})) /\
     update_extension validate_field (config_module, field, type_of, name) b_field
       = Valid.map_to (validate_field resolved type_of config_module) resolved).
Proof.
  intro field; split.
  - intro Hnone; unfold update_extension, compile_extension; simpl.
    rewrite Hnone; split; reflexivity.
  - intros lib Hlib resolved; unfold update_extension, compile_extension; simpl.
    rewrite Hlib; repeat split; reflexivity.
Qed.

(** ** C9: for a field with no extension operator the step returns the
    accumulated [FieldDefinition] unchanged. *)
Theorem update_extension_frame
  (config_module : ConfigModule) (field : Field ExtensionConfig FieldRest)
  (type_of : ConfigType) (name : string) (b_field : FieldDefinition ExtensionConfig)
  (Hnone : field_extension field = None) :
  update_extension validate_field (config_module, field, type_of, name) b_field
  = Succeed b_field.
Proof. unfold update_extension; rewrite Hnone; reflexivity. Qed.

End Facts.

Lemma extension_requires_dylib_witness :
  (Fail ["A @link with path to dylib is required"] : Valid (FieldDefinition unit) string)
  = update_extension accept_all
      ({| extensions := {| rust_lib := None |} |},
       {| field_extension := Some tt; field_rest := tt |}, tt, "posts") sample_field_def /\
  fd_resolver (set_resolver sample_field_def (Some (IR_IO (IO_Rust {| lib := "lib.so"; extension := tt |}))))
  = Some (IR_IO (IO_Rust {| lib := "lib.so"; extension := tt |})).
Proof.
  split.
  - symmetry; apply (proj1 (extension_requires_dylib unit unit unit accept_all
      {| extensions := {| rust_lib := None |} |} tt tt tt "posts" sample_field_def)).
    reflexivity.
  - apply (proj2 (extension_requires_dylib unit unit unit accept_all
      {| extensions := {| rust_lib := Some "lib.so" |} |} tt tt tt "posts" sample_field_def)
      "lib.so").
    reflexivity.
Defined.

Lemma update_extension_frame_witness :
  field_extension {| field_extension := None; field_rest := tt |} = (None : option unit) /\
  update_extension accept_all
    ({| extensions := {| rust_lib := None |} |},
     {| field_extension := None; field_rest := tt |}, tt, "posts") sample_field_def
  = Succeed sample_field_def.
Proof.
  split; [reflexivity|].
  apply (update_extension_frame unit unit unit accept_all); reflexivity.
Defined.

End ExtensionFacts.

Module JitExecutorFacts.
Import JitExecutor.

Section Facts.
Variables (AsyncRequest Request Blueprint Plan Error ServerError : Type).
Variables (Store JitResponse Value IRNode Variables : Type).
Variable request_from : AsyncRequest -> Request.
Variable create_plan : Request -> Blueprint -> Error + Plan.
Variable request_variables : Request -> Variables.
Variable into_server_error : Error -> ServerError.
Variable into_async_graphql : JitResponse -> Response ServerError Value.
Variable executor_store : Plan -> Request -> M IRNode Store.
Variable executor_execute : Plan -> Synth Plan Store Variables -> M IRNode JitResponse.

(** ** C5: when plan creation fails the response is built from that error
    alone (no data) and no IR node is evaluated; when the trace of IR
    evaluations is non-empty, plan creation succeeded. *)
Theorem plan_error_before_execution (self : JITExecutor Blueprint) (req : AsyncRequest) :
  (forall e : Error,
      create_plan (request_from req) (blueprint (app_ctx self)) = inl e ->
      JITExecutor_execute request_from create_plan request_variables
        into_server_error into_async_graphql executor_store executor_execute self req = ([], {| data := None; errors := [into_server_error e] |})) /\
  (fst (JITExecutor_execute request_from create_plan request_variables
        into_server_error into_async_graphql executor_store executor_execute self req) <> [] ->
      exists p : Plan, create_plan (request_from req) (blueprint (app_ctx self)) = inr p).
Proof.
  unfold JITExecutor_execute, ConstValueExecutor_new.
  split.
  - intros e He; rewrite He; reflexivity.
  - destruct (create_plan (request_from req) (blueprint (app_ctx self))) as [e|p].
    + simpl; intro H; exfalso; apply H; reflexivity.
    + intros _; exists p; reflexivity.
Qed.

End Facts.

End JitExecutorFacts.

Module ReaderContextFacts.
Import ReaderContext.

(** ** C6: the lookup returns [None] for an empty path, for an unknown
    source and for a missing key under [vars] or [env], and the stored string
    for a present key; but a path made of the bare namespace [vars] or [env]
    panics on [tail[0]]. *)
Theorem path_string_bare_namespace_panics (ctx : ConfigReaderContext) :
  path_string ctx [] = Returns None /\
  (forall (head : string) (tail : list string),
      head <> "vars" -> head <> "env" -> path_string ctx (head :: tail) = Returns None) /\
  (forall (k : string) (rest : list string),
      path_string ctx ("vars" :: k :: rest) = Returns (btree_get k (vars ctx))) /\
  (forall (k : string) (rest : list string),
      path_string ctx ("env" :: k :: rest) = Returns (env (runtime ctx) k)) /\
  path_string ctx ["vars"] = Panics "index out of bounds" /\
  path_string ctx ["env"] = Panics "index out of bounds".
Proof.
  repeat split.
  - intros head tail Hv He; unfold path_string; simpl.
    apply String.eqb_neq in Hv, He; rewrite Hv, He; reflexivity.
Qed.

End ReaderContextFacts.

Module QueryGeneratorFacts.
Import QueryGenerator.

(** ** C7: [get_schema_type] builds [ListOf(ListOf(Name "String"))] for an
    inline array of arrays of strings, and [into_tuple] panics on it: the
    [unwrap] of [inner.name()] meets [None]. *)
Theorem into_tuple_nested_list_panics (to_pascal : string -> string) (spec : OpenApiV3Spec) :
  get_schema_type to_pascal spec nested_array_schema None
    = inr (ListOf (ListOf (Name "String"))) /\
  into_tuple (ListOf (ListOf (Name "String")))
    = Panics "called `Option::unwrap()` on a `None` value".
Proof. split; reflexivity. Qed.

End QueryGeneratorFacts.

Module HasherFacts.
Import Hasher.

Lemma write_all_state (h : TailcallHasher) (calls : list (list Byte.byte)) :
  hasher (write_all h calls) = fnv_write (hasher h) (List.concat calls).
Proof.
  revert h; induction calls as [|c calls IH]; intro h; simpl.
  - destruct h as [[st]]; reflexivity.
  - unfold write_all in *; simpl; rewrite IH; simpl.
    unfold fnv_write; simpl; rewrite List.fold_left_app; reflexivity.
Qed.

Lemma fnv_fold_bound (bytes : list Byte.byte) (x : Z) :
  (0 <= x < u64_modulus)%Z ->
  (0 <= fold_left (fun hash b => Z.modulo (Z.lxor hash (Z.of_N (Byte.to_N b)) * fnv_prime)
                                        u64_modulus) bytes x < u64_modulus)%Z.
Proof.
  revert x; induction bytes as [|b bytes IH]; intros x Hx; simpl; [exact Hx|].
  apply IH, Z.mod_pos_bound; reflexivity.
Qed.

(** ** C10: two hashers built by [build_hasher] and fed the same [write]
    calls finish with the same [u64]: 64-bit FNV-1a of the concatenated
    bytes, with no seed; e.g. [b"a"] hashes to 0xaf63dc4c8601ec8c. *)
Theorem hasher_deterministic :
  (forall (b1 b2 : TailcallBuildHasher) (calls : list (list Byte.byte)),
      finish (write_all (build_hasher b1) calls) = finish (write_all (build_hasher b2) calls) /\
      finish (write_all (build_hasher b1) calls) = fnv1a64 (List.concat calls) /\
      (0 <= finish (write_all (build_hasher b1) calls) < u64_modulus)%Z) /\
  finish (write (build_hasher mkTailcallBuildHasher) [Byte.x61]) = 12638187200555641996%Z.
Proof.
  split; [|vm_compute; reflexivity].
  intros [] [] calls.
  unfold finish, fnv_finish; rewrite write_all_state.
  split; [reflexivity|split; [reflexivity|]].
  apply fnv_fold_bound; unfold fnv_offset_basis, u64_modulus; simpl; split; [discriminate|reflexivity].
Qed.

End HasherFacts.

Module BatchingFacts.
Import Batching.

Section Facts.
Variable Key : Type.
Variable key_eq_dec : forall a b : Key, {a = b} + {a <> b}.
Variable Result : Type.
Variable upstream : Key -> Result.

Lemma request_inv (st : WaveState Key Result) (k : Key) :
  wave_inv Key key_eq_dec Result upstream st ->
  let '(st', r) := request Key key_eq_dec Result upstream st k in
  wave_inv Key key_eq_dec Result upstream st' /\ r = upstream k /\
  (forall x, In x (upstream_calls Key Result st') <-> In x (upstream_calls Key Result st) \/ x = k).
Proof.
  intros [Hres [Hdom Hnd]]; unfold request.
  destruct (lookup Key key_eq_dec Result k (inflight Key Result st)) as [r|] eqn:Hk.
  - split; [repeat split; auto; apply Hdom|split; [now apply Hres|]].
    intro x; split; [now left|intros [H|H]; [exact H|subst x; apply Hdom; congruence]].
  - assert (Hnin : ~ In k (upstream_calls Key Result st)) by (rewrite <- Hdom; auto).
    split; [|split; [reflexivity|]].
    + repeat split; simpl.
      * intros k' r'; destruct (key_eq_dec k' k) as [->|Hne]; [congruence|apply Hres].
      * intro Hl; apply in_or_app.
        destruct (key_eq_dec k0 k) as [->|Hne]; [right; now left|left; now apply Hdom].
      * intros Hin Hl; apply in_app_or in Hin as [Hin|[Hin|[]]].
        -- destruct (key_eq_dec k0 k) as [->|Hne]; [discriminate|now apply (proj2 (Hdom k0))].
        -- subst k0; destruct (key_eq_dec k k); congruence.
      * apply NoDup_app; [exact Hnd|constructor; [intros []|constructor]|].
        intros x Hx [Hy|[]]; subst x; contradiction.
    + intro x; simpl; rewrite in_app_iff; simpl; intuition.
Qed.

Lemma run_from_inv (ks : list Key) (st : WaveState Key Result) :
  wave_inv Key key_eq_dec Result upstream st ->
  let '(st', rs) := run_from Key key_eq_dec Result upstream st ks in
  wave_inv Key key_eq_dec Result upstream st' /\ rs = List.map upstream ks /\
  (forall x, In x (upstream_calls Key Result st') <-> In x (upstream_calls Key Result st) \/ In x ks).
Proof.
  revert st; induction ks as [|k ks IH]; intros st Hst; simpl.
  - split; [exact Hst|split; [reflexivity|intro x; tauto]].
  - pose proof (request_inv st k Hst) as Hreq.
    destruct (request Key key_eq_dec Result upstream st k) as [st1 r].
    destruct Hreq as [Hst1 [Hr Hcalls1]].
    pose proof (IH st1 Hst1) as Hrun.
    destruct (run_from Key key_eq_dec Result upstream st1 ks) as [st2 rs].
    destruct Hrun as [Hst2 [Hrs Hcalls2]].
    split; [exact Hst2|split; [now subst|]].
    intro x; rewrite Hcalls2, Hcalls1; simpl; intuition.
Qed.

(** ** C3: within one wave, every key requested by one or more plan nodes is
    called upstream exactly once (a key not requested is never called), and
    every requester receives the upstream result for its key. *)
Theorem batching_single_upstream_call (ks : list Key) :
  let '(st, results) := run_wave Key key_eq_dec Result upstream ks in
  (forall k : Key,
      count_occ key_eq_dec (upstream_calls Key Result st) k
      = if in_dec key_eq_dec k ks then 1 else 0) /\
  results = List.map upstream ks.
Proof.
  unfold run_wave.
  assert (H0 : wave_inv Key key_eq_dec Result upstream {| inflight := []; upstream_calls := [] |}).
  { repeat split; simpl; try discriminate; try tauto; constructor. }
  pose proof (run_from_inv ks _ H0) as Hrun.
  destruct (run_from Key key_eq_dec Result upstream _ ks) as [st rs].
  destruct Hrun as [[_ [_ Hnd]] [Hrs Hcalls]].
  split; [|exact Hrs].
  intro k; destruct (in_dec key_eq_dec k ks) as [Hin|Hnin].
  - apply (NoDup_count_occ' key_eq_dec) ; [exact Hnd|apply Hcalls; now right].
  - apply count_occ_not_In; rewrite Hcalls; simpl; tauto.
Qed.

End Facts.

End BatchingFacts.

(** * Further properties of the modelled code *)

Module QueryComplexityMore.
Import QueryComplexity QueryComplexityFacts.

(** Induction over plan trees with a hypothesis for every child. *)
Lemma Field_deep_ind (P : Field -> Prop)
  (H : forall n cs, Forall P cs -> P (mkField n cs)) : forall f, P f.
Proof.
  fix IH 1; intros [n cs]; apply H.
  induction cs as [|c cs IHcs]; constructor; [apply IH|exact IHcs].
Qed.

Lemma sum_app (l1 l2 : list nat) : sum (l1 ++ l2)%list = sum l1 + sum l2.
Proof.
  induction l1 as [|x l1 IH]; [reflexivity|].
  simpl app; rewrite !sum_cons, IH; lia.
Qed.

Lemma validate_cases (b : QueryComplexity) (plan : OperationPlan) :
  validate b plan = (if Nat.ltb b (complexity plan)
                     then Fail ["Query Complexity validation failed."] else Succeed tt).
Proof. reflexivity. Qed.

(** The complexity of a field is the number of field nodes in its subtree,
    so a plan's complexity is the number of fields it selects. *)
Theorem complexity_counts_nodes :
  (forall f : Field, complexity_helper f = node_count f) /\
  (forall plan : OperationPlan, complexity plan = sum (List.map node_count plan)).
Proof.
  assert (Hf : forall f, complexity_helper f = node_count f).
  { apply Field_deep_ind; intros n cs Hcs.
    change (complexity_helper (mkField n cs)) with
      ((fix go (fs : list Field) (complexity : nat) : nat :=
          match fs with
          | [] => complexity
          | child :: rest => go rest (complexity + complexity_helper child)
          end) cs 1).
    rewrite helper_loop; simpl; f_equal.
    induction Hcs as [|c cs Hc _ IH]; [reflexivity|].
    simpl List.map; rewrite sum_cons, IH, Hc; reflexivity. }
  split; [exact Hf|].
  intro plan; unfold complexity; f_equal; apply List.map_ext; exact Hf.
Qed.

(** Complexity is additive over top-level selections, so a plan passes a
    budget only if each of its parts does, and the rule's only failure is
    the single message "Query Complexity validation failed.". *)
Theorem complexity_additive (b : QueryComplexity) (p1 p2 : OperationPlan) :
  complexity (p1 ++ p2)%list = complexity p1 + complexity p2 /\
  (is_succeed (validate b (p1 ++ p2)%list) = true ->
     is_succeed (validate b p1) = true /\ is_succeed (validate b p2) = true) /\
  (validate b (p1 ++ p2)%list = Succeed tt \/
   validate b (p1 ++ p2)%list = Fail ["Query Complexity validation failed."]).
Proof.
  assert (Hadd : complexity (p1 ++ p2)%list = complexity p1 + complexity p2).
  { unfold complexity; rewrite List.map_app; apply sum_app. }
  split; [exact Hadd|split].
  - rewrite !validate_cases, Hadd.
    destruct (Nat.ltb b (complexity p1 + complexity p2)) eqn:E; [discriminate|].
    apply Nat.ltb_ge in E; intros _.
    destruct (Nat.ltb_spec b (complexity p1)), (Nat.ltb_spec b (complexity p2));
      simpl; split; auto; lia.
  - rewrite validate_cases; destruct (Nat.ltb _ _); auto.
Qed.

(** A budget that a plan passes is passed by every larger budget; a plan of
    at least one field fails budget 0. *)
Theorem validate_monotone (b b' : QueryComplexity) (plan : OperationPlan)
  (Hle : b <= b') (Hok : is_succeed (validate b plan) = true) :
  is_succeed (validate b' plan) = true /\
  (plan <> [] -> is_succeed (validate 0 plan) = false).
Proof.
  split.
  - revert Hok; rewrite !validate_cases.
    destruct (Nat.ltb_spec b (complexity plan)); [discriminate|].
    destruct (Nat.ltb_spec b' (complexity plan)); [lia|reflexivity].
  - intro Hne; rewrite validate_cases; destruct plan as [|f rest]; [congruence|].
    unfold complexity; simpl List.map; rewrite sum_cons.
    destruct f as [n cs]; change (complexity_helper (mkField n cs)) with
      ((fix go (fs : list Field) (complexity : nat) : nat :=
          match fs with
          | [] => complexity
          | child :: rest => go rest (complexity + complexity_helper child)
          end) cs 1).
    rewrite helper_loop; reflexivity.
Qed.

Lemma validate_monotone_witness :
  is_succeed (validate 7 plan_flat) = true /\ is_succeed (validate 0 plan_flat) = false.
Proof.
  destruct (validate_monotone 4 7 plan_flat ltac:(lia) eq_refl) as [H1 H2].
  split; [exact H1|apply H2; discriminate].
Defined.

End QueryComplexityMore.

Module ExtensionMore.
Import Extension.

Section Facts.
Variables (ExtensionConfig ConfigType FieldRest : Type).
Variable validate_field :
  FieldDefinition ExtensionConfig -> ConfigType -> ConfigModule -> Valid unit string.

(** When the extension step succeeds on a field with an extension operator,
    a dylib path was configured, the new field differs from the accumulated
    one only in its resolver (the Rust IR of that path and extension), and
    [validate_field] accepted it; when [validate_field] rejects it, its
    errors are returned unchanged. *)
Theorem update_extension_changes_only_resolver
  (config_module : ConfigModule) (ext : ExtensionConfig) (rest : FieldRest)
  (type_of : ConfigType) (name : string) (b_field f' : FieldDefinition ExtensionConfig)
  (Hok : update_extension validate_field
           (config_module, {| field_extension := Some ext; field_rest := rest |}, type_of, name)
           b_field = Succeed f') :
  exists lib : string,
    rust_lib (extensions config_module) = Some lib /\
    fd_resolver f' = Some (IR_IO (IO_Rust {| lib := lib; extension := ext |})) /\
    fd_name f' = fd_name b_field /\ fd_args f' = fd_args b_field /\
    fd_of_type f' = fd_of_type b_field /\ fd_directives f' = fd_directives b_field /\
    fd_description f' = fd_description b_field /\
    fd_default_value f' = fd_default_value b_field /\
    validate_field f' type_of config_module = Succeed tt.
Proof.
  revert Hok; unfold update_extension, compile_extension; simpl.
  destruct (rust_lib (extensions config_module)) as [lib|]; simpl; [|discriminate].
  destruct (validate_field _ type_of config_module) as [[]|es] eqn:Hv; simpl; [|discriminate].
  intro H; injection H as <-; exists lib; repeat split; exact Hv.
Qed.

Lemma update_extension_propagates_errors
  (config_module : ConfigModule) (ext : ExtensionConfig) (rest : FieldRest)
  (type_of : ConfigType) (name : string) (b_field : FieldDefinition ExtensionConfig)
  (lib : string) (es : list string) :
  rust_lib (extensions config_module) = Some lib ->
  validate_field (set_resolver b_field (Some (IR_IO (IO_Rust {| lib := lib; extension := ext |}))))
    type_of config_module = Fail es ->
  update_extension validate_field
    (config_module, {| field_extension := Some ext; field_rest := rest |}, type_of, name)
    b_field = Fail es.
Proof.
  intros Hlib Hv; unfold update_extension, compile_extension; simpl.
  rewrite Hlib; simpl; rewrite Hv; reflexivity.
Qed.

End Facts.

Definition reject_all (_ : FieldDefinition unit) (_ : unit) (_ : ConfigModule)
  : Valid unit string := Fail ["invalid field"].

Lemma update_extension_changes_only_resolver_witness :
  exists lib : string,
    rust_lib (extensions {| extensions := {| rust_lib := Some "lib.so" |} |}) = Some lib /\
    fd_resolver (set_resolver sample_field_def
                   (Some (IR_IO (IO_Rust {| lib := "lib.so"; extension := tt |}))))
    = Some (IR_IO (IO_Rust {| lib := lib; extension := tt |})) /\
    fd_name (set_resolver sample_field_def
               (Some (IR_IO (IO_Rust {| lib := "lib.so"; extension := tt |}))))
    = fd_name sample_field_def.
Proof.
  destruct (update_extension_changes_only_resolver unit unit unit accept_all
              {| extensions := {| rust_lib := Some "lib.so" |} |} tt tt tt "posts"
              sample_field_def
              (set_resolver sample_field_def
                 (Some (IR_IO (IO_Rust {| lib := "lib.so"; extension := tt |}))))
              eq_refl) as [lib [Hlib [Hres [Hname _]]]].
  exists lib; split; [exact Hlib|split; [exact Hres|exact Hname]].
Defined.

End ExtensionMore.

Module JitExecutorMore.
Import JitExecutor.

Section Facts.
Variables (AsyncRequest Request Blueprint Plan Error ServerError : Type).
Variables (Store JitResponse Value IRNode Variables : Type).
Variable request_from : AsyncRequest -> Request.
Variable create_plan : Request -> Blueprint -> Error + Plan.
Variable request_variables : Request -> Variables.
Variable into_server_error : Error -> ServerError.
Variable into_async_graphql : JitResponse -> Response ServerError Value.
Variable executor_store : Plan -> Request -> M IRNode Store.
Variable executor_execute : Plan -> Synth Plan Store Variables -> M IRNode JitResponse.


End Facts.


End JitExecutorMore.

Module ReaderContextMore.
Import ReaderContext.

(** Only the first two segments of a path are read: [vars.a.b] looks up
    [vars["a"]] and the rest of the path is ignored. *)
Theorem path_string_ignores_deeper_segments
  (ctx : ConfigReaderContext) (head key : string) (rest : list string) :
  path_string ctx (head :: key :: rest) = path_string ctx [head; key].
Proof. unfold path_string, index; simpl; reflexivity. Qed.

End ReaderContextMore.

Module QueryGeneratorMore.
Import QueryGenerator.

Lemma split_on_no_sep (sep : ascii) (n : string) :
  ~ In sep (list_ascii_of_string n) -> Template.split_on sep n = [n].
Proof.
  induction n as [|c n IH]; intro Hn; [reflexivity|].
  simpl in Hn; simpl; rewrite IH by tauto.
  destruct (Ascii.eqb_spec c sep) as [->|]; [tauto|reflexivity].
Qed.

Lemma split_on_last_sep (sep : ascii) (pre n : string) :
  ~ In sep (list_ascii_of_string n) ->
  exists w ws, Template.split_on sep (pre ++ String sep n) = w :: (ws ++ [n])%list.
Proof.
  intro Hn; induction pre as [|c pre IH].
  - simpl; rewrite split_on_no_sep by exact Hn; rewrite Ascii.eqb_refl.
    exists "", []; reflexivity.
  - destruct IH as [w [ws Hw]]; simpl; rewrite Hw.
    destruct (Ascii.eqb c sep).
    + exists "", (w :: ws); reflexivity.
    + exists (String c w), ws; reflexivity.
Qed.

(** A reference path names the type after its last [/]: [#/components/schemas/pet]
    gives [to_pascal "pet"]; an inline schema has no name. *)
Theorem name_from_ref_path_last_segment (to_pascal : string -> string) (pre n : string)
  (Hn : ~ In "/"%char (list_ascii_of_string n)) :
  name_from_ref_path to_pascal (Ref (pre ++ "/" ++ n)) = Some (to_pascal n) /\
  (forall s : Schema, name_from_ref_path to_pascal (Obj s) = None).
Proof.
  split; [|reflexivity].
  unfold name_from_ref_path, last_segment; f_equal; f_equal.
  destruct (split_on_last_sep "/" pre n Hn) as [w [ws Hw]].
  change ("/" ++ n) with (String "/" n); rewrite Hw.
  rewrite app_comm_cons; apply List.last_last.
Qed.

Lemma name_from_ref_path_last_segment_witness :
  name_from_ref_path (fun x => x) (Ref ("#/components/schemas" ++ "/" ++ "Pet")) = Some "Pet" /\
  name_from_ref_path (fun x => x) (Obj (plain None SString)) = None.
Proof.
  destruct (name_from_ref_path_last_segment (fun x => x) "#/components/schemas" "Pet")
    as [H1 H2]; [simpl; intuition discriminate|].
  split; [exact H1|apply H2].
Defined.

(** Without [items], [get_schema_type] never fails and gives a plain name. *)
Lemma no_items_name (to_pascal : string -> string) (spec : OpenApiV3Spec) (s : Schema)
  (name : option string) :
  items s = None -> exists n, get_schema_type to_pascal spec s name = inr (Name n).
Proof.
  destruct s as [[el|] st ev props all any one]; simpl; intro H; [discriminate|].
  destruct st as [[]|]; destruct ev; destruct name; simpl;
    try (eexists; reflexivity);
    match goal with |- context [if ?b then _ else _] => destruct b end;
    eexists; reflexivity.
Qed.

(** A schema without [items] always gets a non-list type: [into_tuple]
    returns [(false, n)]. *)
Theorem no_items_not_list (to_pascal : string -> string) (spec : OpenApiV3Spec) (s : Schema)
  (name : option string) (Hno : items s = None) :
  exists n, get_schema_type to_pascal spec s name = inr (Name n) /\
            into_tuple (Name n) = Returns (false, n).
Proof.
  destruct (no_items_name to_pascal spec s name Hno) as [n Hn].
  exists n; split; [exact Hn|reflexivity].
Qed.

Lemma no_items_not_list_witness :
  exists n, get_schema_type (fun x => x) [] (plain None Integer) None = inr (Name n) /\
            into_tuple (Name n) = Returns (false, n).
Proof. apply no_items_not_list; reflexivity. Defined.

(** [into_tuple] can panic on a type [get_schema_type] built only when the
    schema's [items] is an inline schema that has [items] of its own (an
    array of arrays); for every other schema it returns a pair. *)
Theorem into_tuple_panics_only_on_nested_arrays
  (to_pascal : string -> string) (spec : OpenApiV3Spec) (s : Schema)
  (name : option string) (t : TypeName)
  (Ht : get_schema_type to_pascal spec s name = inr t) :
  (exists r, into_tuple t = Returns r) \/
  (exists inner el, items s = Some (Obj inner) /\ items inner = Some el).
Proof.
  destruct s as [[el|] st ev props all any one].
  - simpl in Ht.
    destruct (resolve spec el) as [e|inner] eqn:Hres; [discriminate|].
    destruct (is_string_enum inner).
    { injection Ht as <-; left; eexists; reflexivity. }
    destruct el as [p|s'].
    { injection Ht as <-; left; eexists; reflexivity. }
    destruct (match schema_type inner with
              | Some t0 => schema_to_primitive_type t0 | None => None end).
    { injection Ht as <-; left; eexists; reflexivity. }
    destruct (items s') as [el'|] eqn:Hit.
    + right; exists s', el'; split; [reflexivity|exact Hit].
    + destruct (no_items_name to_pascal spec s' None Hit) as [n Hn].
      rewrite Hn in Ht; injection Ht as <-; left; eexists; reflexivity.
  - destruct (no_items_name to_pascal spec
                (mkSchema None st ev props all any one) name eq_refl) as [n Hn].
    rewrite Hn in Ht; injection Ht as <-; left; eexists; reflexivity.
Qed.

Lemma into_tuple_panics_only_on_nested_arrays_witness :
  (exists r, into_tuple (ListOf (Name "Pet")) = Returns r) \/
  (exists inner el, items (plain (Some (Ref "#/components/schemas/Pet")) Array) = Some (Obj inner)
                    /\ items inner = Some el).
Proof.
  apply (into_tuple_panics_only_on_nested_arrays (fun x => x)
           [("#/components/schemas/Pet", plain None Object)]
           (plain (Some (Ref "#/components/schemas/Pet")) Array) None).
  reflexivity.
Defined.

(** [get_schema_type] fails only by failing to resolve a reference: every
    error it returns is the resolution error of some [Ref]. *)
Theorem get_schema_type_errors_from_refs (to_pascal : string -> string)
  (spec : OpenApiV3Spec) :
  forall (s : Schema) (name : option string) (e : string),
    get_schema_type to_pascal spec s name = inl e -> exists p, resolve spec (Ref p) = inl e.
Proof.
  fix IH 1; intros s name e He.
  destruct s as [[el|] st ev props all any one].
  - simpl in He.
    destruct (resolve spec el) as [e'|inner] eqn:Hres.
    + injection He as <-; destruct el as [p|s'].
      * exists p; exact Hres.
      * discriminate.
    + destruct (is_string_enum inner); [discriminate|].
      destruct el as [p|s']; [discriminate|].
      destruct (match schema_type inner with
                | Some t0 => schema_to_primitive_type t0 | None => None end); [discriminate|].
      destruct (get_schema_type to_pascal spec s' None) as [e'|t] eqn:Hs'; [|discriminate].
      injection He as <-; exact (IH s' None e' Hs').
  - destruct (no_items_name to_pascal spec
                (mkSchema None st ev props all any one) name eq_refl) as [n Hn].
    rewrite Hn in He; discriminate.
Qed.


Lemma get_schema_type_errors_from_refs_witness :
  get_schema_type (fun x => x) [] (plain (Some (Ref "#/components/schemas/Pet")) Array) None
    = inl ("Unable to resolve reference " ++ "#/components/schemas/Pet") /\
  exists p, resolve [] (Ref p) = inl ("Unable to resolve reference " ++ "#/components/schemas/Pet").
Proof.
  assert (H : get_schema_type (fun x => x) [] (plain (Some (Ref "#/components/schemas/Pet")) Array) None
                = inl ("Unable to resolve reference " ++ "#/components/schemas/Pet"))
    by reflexivity.
  split; [exact H|exact (get_schema_type_errors_from_refs (fun x => x) [] _ None _ H)].
Defined.

End QueryGeneratorMore.

Module HasherMore.
Import Hasher.

Definition fnv_prime_inverse : Z := 14886173955864302971.

Lemma fnv_write_state (h : FnvHasher) (bytes : list Byte.byte) :
  fnv_state (fnv_write h bytes) = fold_left fnv_mix bytes (fnv_state h).
Proof. reflexivity. Qed.

Lemma fnv_mix_fold_bound (bytes : list Byte.byte) (x : Z) :
  (0 <= x < u64_modulus)%Z -> (0 <= fold_left fnv_mix bytes x < u64_modulus)%Z.
Proof.
  revert x; induction bytes as [|b bytes IH]; intros x Hx; simpl; [exact Hx|].
  apply IH, Z.mod_pos_bound; reflexivity.
Qed.

Lemma fnv1a64_bound (bytes : list Byte.byte) : (0 <= fnv1a64 bytes < u64_modulus)%Z.
Proof.
  unfold fnv1a64; rewrite fnv_write_state; apply fnv_mix_fold_bound.
  unfold fnv_offset_basis, u64_modulus; simpl; split; [discriminate|reflexivity].
Qed.

Lemma log2_lt_64 (x : Z) : (0 <= x < u64_modulus)%Z -> (Z.log2 x < 64)%Z.
Proof.
  intro Hx; destruct (Z.eq_dec x 0) as [->|Hne]; [reflexivity|].
  apply Z.log2_lt_pow2; [lia|exact (proj2 Hx)].
Qed.

Lemma lxor_bound (x y : Z) :
  (0 <= x < u64_modulus)%Z -> (0 <= y < u64_modulus)%Z -> (0 <= Z.lxor x y < u64_modulus)%Z.
Proof.
  intros Hx Hy.
  assert (Hnn : (0 <= Z.lxor x y)%Z) by (apply Z.lxor_nonneg; lia).
  split; [exact Hnn|].
  destruct (Z.eq_dec (Z.lxor x y) 0) as [->|Hne]; [reflexivity|].
  apply Z.log2_lt_pow2; [lia|].
  eapply Z.le_lt_trans; [apply Z.log2_lxor; lia|].
  apply Z.max_lub_lt; apply log2_lt_64; assumption.
Qed.

Lemma mul_prime_inj (x y : Z) :
  (0 <= x < u64_modulus)%Z -> (0 <= y < u64_modulus)%Z ->
  ((x * fnv_prime) mod u64_modulus = (y * fnv_prime) mod u64_modulus)%Z -> x = y.
Proof.
  assert (Hinv : ((fnv_prime * fnv_prime_inverse) mod u64_modulus = 1)%Z) by reflexivity.
  assert (E : forall z, (0 <= z < u64_modulus)%Z ->
            z = (((z * fnv_prime) mod u64_modulus * fnv_prime_inverse) mod u64_modulus)%Z).
  { intros z Hz.
    rewrite Z.mul_mod_idemp_l by discriminate.
    rewrite <- Z.mul_assoc, <- Z.mul_mod_idemp_r by discriminate.
    rewrite Hinv, Z.mul_1_r, Z.mod_small; auto. }
  intros Hx Hy Hxy; rewrite (E x Hx), (E y Hy), Hxy; reflexivity.
Qed.

Lemma byte_value_bound (b : Byte.byte) : (0 <= Z.of_N (Byte.to_N b) < u64_modulus)%Z.
Proof. destruct b; split; reflexivity || discriminate. Qed.

Lemma byte_value_inj (b1 b2 : Byte.byte) :
  Z.of_N (Byte.to_N b1) = Z.of_N (Byte.to_N b2) -> b1 = b2.
Proof.
  intro H; apply N2Z.inj in H.
  pose proof (Byte.of_to_N b1) as H1; pose proof (Byte.of_to_N b2) as H2.
  rewrite H in H1; congruence.
Qed.

Lemma lxor_cancel_l (x a b : Z) : Z.lxor x a = Z.lxor x b -> a = b.
Proof.
  intro H.
  rewrite <- (Z.lxor_0_l a), <- (Z.lxor_nilpotent x), Z.lxor_assoc, H,
          <- Z.lxor_assoc, Z.lxor_nilpotent, Z.lxor_0_l; reflexivity.
Qed.

(** One step of FNV-1a is injective in the byte and in the state. *)
Lemma fnv_mix_inj_byte (x : Z) (b1 b2 : Byte.byte) :
  (0 <= x < u64_modulus)%Z -> fnv_mix x b1 = fnv_mix x b2 -> b1 = b2.
Proof.
  unfold fnv_mix; intros Hx H.
  apply mul_prime_inj in H; try (apply lxor_bound; [exact Hx|apply byte_value_bound]).
  apply byte_value_inj, (lxor_cancel_l x), H.
Qed.

Lemma fnv_mix_inj_state (x y : Z) (b : Byte.byte) :
  (0 <= x < u64_modulus)%Z -> (0 <= y < u64_modulus)%Z -> fnv_mix x b = fnv_mix y b -> x = y.
Proof.
  unfold fnv_mix; intros Hx Hy H.
  apply mul_prime_inj in H; try (apply lxor_bound; [assumption|apply byte_value_bound]).
  rewrite (Z.lxor_comm x), (Z.lxor_comm y) in H; apply (lxor_cancel_l _ _ _ H).
Qed.

(** Hashing is incremental: the hash of [s ++ t] continues from the hash of
    [s], so writing in pieces or at once gives the same state. *)
Theorem fnv1a64_app (s t : list Byte.byte) :
  fnv1a64 (s ++ t)%list = fold_left fnv_mix t (fnv1a64 s).
Proof. unfold fnv1a64; rewrite !fnv_write_state, List.fold_left_app; reflexivity. Qed.

(** Two byte strings that differ only in their last byte never collide. *)
Theorem fnv1a64_last_byte_inj (s : list Byte.byte) (b1 b2 : Byte.byte)
  (H : fnv1a64 (s ++ [b1])%list = fnv1a64 (s ++ [b2])%list) : b1 = b2.
Proof.
  rewrite !fnv1a64_app in H; simpl in H.
  exact (fnv_mix_inj_byte _ b1 b2 (fnv1a64_bound s) H).
Qed.

Lemma fnv1a64_last_byte_inj_witness :
  fnv1a64 ([Byte.x61] ++ [Byte.x62])%list = fnv1a64 ([Byte.x61] ++ [Byte.x62])%list /\
  Byte.x62 = Byte.x62.
Proof.
  split; [reflexivity|].
  exact (fnv1a64_last_byte_inj [Byte.x61] Byte.x62 Byte.x62 eq_refl).
Defined.

(** Appending the same bytes to two inputs with different hashes keeps their
    hashes different: collisions are never created by a common suffix. *)
Theorem fnv1a64_suffix_keeps_distinct (s1 s2 t : list Byte.byte)
  (Hne : fnv1a64 s1 <> fnv1a64 s2) : fnv1a64 (s1 ++ t)%list <> fnv1a64 (s2 ++ t)%list.
Proof.
  rewrite !fnv1a64_app.
  pose proof (fnv1a64_bound s1) as B1; pose proof (fnv1a64_bound s2) as B2.
  revert Hne B1 B2; generalize (fnv1a64 s1) (fnv1a64 s2).
  induction t as [|b t IH]; intros x y Hne Bx By; simpl; [exact Hne|].
  apply IH.
  - intro H; apply Hne, (fnv_mix_inj_state x y b Bx By H).
  - apply Z.mod_pos_bound; reflexivity.
  - apply Z.mod_pos_bound; reflexivity.
Qed.

Lemma fnv1a64_suffix_keeps_distinct_witness :
  fnv1a64 [Byte.x61] <> fnv1a64 [Byte.x62] /\
  fnv1a64 ([Byte.x61] ++ [Byte.x63])%list <> fnv1a64 ([Byte.x62] ++ [Byte.x63])%list.
Proof.
  assert (H : fnv1a64 [Byte.x61] <> fnv1a64 [Byte.x62]) by (vm_compute; discriminate).
  split; [exact H|exact (fnv1a64_suffix_keeps_distinct [Byte.x61] [Byte.x62] [Byte.x63] H)].
Defined.

End HasherMore.

Module InferArgNameMore.
Import InferArgName.

Lemma contains_key_false {A} (k : string) (m : list (string * A)) :
  contains_key k m = false -> ~ In k (List.map fst m).
Proof.
  induction m as [|[k' v] m IH]; simpl; [tauto|].
  intros H [E|Hin].
  - subst; rewrite String.eqb_refl in H; discriminate.
  - apply Bool.orb_false_iff in H; destruct H as [_ H]; exact (IH H Hin).
Qed.

Section Invariant.

Variable is_root_operation_type : Config -> string -> bool.
Variable suggestions : string * string -> list string.
Variable config : Config.
Variable todo : list (string * Arg).

(** Every recorded new name is fresh against the types, distinct from the
    other new names, and a suggestion for one of the arguments processed. *)
Definition mappings_ok (m : list (string * string)) : Prop :=
  NoDup (List.map fst m) /\
  forall n a, In (n, a) m ->
    contains_key n (types config) = false /\
    exists arg, In (a, arg) todo /\ In n (suggestions (a, type_of arg)).

Lemma pick_ok (a : string) (arg : Arg) (names : list string) (m : list (string * string)) :
  In (a, arg) todo -> incl names (suggestions (a, type_of arg)) ->
  mappings_ok m -> mappings_ok (pick config a names m).
Proof.
  intros Hin; induction names as [|n names IH]; intros Hincl Hm; simpl; [exact Hm|].
  case_eq (contains_key n (types config) || contains_key n m); intro Hc.
  - apply IH; [intros x Hx; apply Hincl; right; exact Hx|exact Hm].
  - apply Bool.orb_false_iff in Hc; destruct Hc as [Ht Hk].
    destruct Hm as [Hnd Hall]; split.
    + rewrite List.map_app; simpl.
      apply NoDup_app; [exact Hnd|constructor; [intros []|constructor]|].
      intros x Hx [<-|[]]; exact (contains_key_false _ _ Hk Hx).
    + intros n' a' Hin'; apply in_app_or in Hin'; destruct Hin' as [Hin'|[E|[]]].
      * exact (Hall n' a' Hin').
      * inversion E; subst; split; [exact Ht|].
        exists arg; split; [exact Hin|apply Hincl; left; reflexivity].
Qed.

Lemma fold_step_ok (l : list (string * Arg)) (m : list (string * string)) :
  incl l todo -> mappings_ok m ->
  mappings_ok (fold_left (step suggestions config) l m).
Proof.
  revert m; induction l as [|[a arg] l IH]; intros m Hincl Hm; simpl; [exact Hm|].
  apply IH; [intros x Hx; apply Hincl; right; exact Hx|].
  apply (pick_ok a arg); [apply Hincl; left; reflexivity|intros x Hx; exact Hx|exact Hm].
Qed.

End Invariant.

(** [generate] only proposes names that are not existing type names, never
    proposes the same name twice, and every name it gives an argument is one
    of the suggestions returned for that argument and its type. *)
Theorem generate_names_fresh_distinct_suggested
  (is_root_operation_type : Config -> string -> bool)
  (suggestions : string * string -> list string) (config : Config) :
  NoDup (List.map snd (generate is_root_operation_type suggestions config)) /\
  forall a n, In (a, n) (generate is_root_operation_type suggestions config) ->
    contains_key n (types config) = false /\
    exists arg, In (a, arg) (args_to_be_processed is_root_operation_type config) /\
                In n (suggestions (a, type_of arg)).
Proof.
  assert (H : mappings_ok suggestions config (args_to_be_processed is_root_operation_type config)
                (name_mappings is_root_operation_type suggestions config)).
  { apply fold_step_ok; [intros x Hx; exact Hx|split; [constructor|intros _ _ []]]. }
  destruct H as [Hnd Hall]; unfold generate.
  split.
  - rewrite List.map_map.
    replace (List.map (fun x => snd (let '(k, v) := x in (v, k))) _)
      with (List.map fst (name_mappings is_root_operation_type suggestions config)); [exact Hnd|].
    apply List.map_ext; intros [k v]; reflexivity.
  - intros a n Hin; apply in_map_iff in Hin; destruct Hin as [[k v] [E Hin]].
    inversion E; subst; exact (Hall _ _ Hin).
Qed.

Lemma delay_after_ge_60 (n : nat) : (2 <= n)%nat -> (60 <= delay_after n)%Z.
Proof.
  induction n as [|n IH]; intro Hn; [lia|].
  destruct (Nat.eq_dec n 1) as [->|Hne]; [simpl; lia|].
  assert (H60 : (60 <= delay_after n)%Z) by (apply IH; lia).
  simpl; unfold delay_next; rewrite Z.min_r by lia; lia.
Qed.



Lemma delay_after_mono (n : nat) : (2 <= n)%nat -> (delay_after n <= delay_after (S n))%Z.
Proof.
  intro Hn; pose proof (delay_after_ge_60 n Hn); simpl; unfold delay_next.
  rewrite Z.min_r by lia; lia.
Qed.



End InferArgNameMore.
